(** * illu-string_of_bytes: the native stub [src/stub.c]

    The stub exposes two helpers to the MoonBit runtime:

    - [illusory0x0_moonbit_set_array_header] stores a 32-bit metadata word
      in the [meta] field of the object header that precedes an array;
    - [illusory0x0_moonbit_make_array_header] returns, as an [int32_t], the
      value of the runtime macro [Moonbit_make_array_header].

    Both rest on [moonbit.h], the header of the host runtime, which is not
    part of the repository.  What the stub takes from it (two macros and
    the position of a struct field) is gathered in the record [runtime],
    and the theorems about the stub hold for every such record. *)

From Stdlib Require Import ZArith Lia List Bool.
From stdpp Require Import base option gmap list.

Local Open Scope Z_scope.

(** ** C integer conversions *)

Module CInt.

(** Conversion to [uint32_t]: the value modulo [2^32]. *)
Definition uint32_of (z : Z) : Z := z mod 2 ^ 32.

(** Conversion to [int32_t]: the representative of [z] modulo [2^32] in
    [-2^31, 2^31) (what GCC and Clang document, and what C23 requires). *)
Definition int32_of (z : Z) : Z := (z + 2 ^ 31) mod 2 ^ 32 - 2 ^ 31.

Definition is_uint32 (z : Z) : Prop := 0 <= z < 2 ^ 32.
Definition is_int32 (z : Z) : Prop := - 2 ^ 31 <= z < 2 ^ 31.

End CInt.

(** ** Byte-addressed memory *)

Module Memory.

Inductive endianness := LittleEndian | BigEndian.

(** Allocated bytes: a finite map from addresses to byte values.  An
    address outside the map is not part of any live object. *)
Abbreviation mem := (gmap Z Z).

(** The [n] low bytes of [v], least significant first. *)
Fixpoint le_bytes (n : nat) (v : Z) : list Z :=
  match n with
  | O => []
  | S n' => Z.land v 255 :: le_bytes n' (Z.shiftr v 8)
  end.

Fixpoint le_value (bs : list Z) : Z :=
  match bs with
  | [] => 0
  | b :: bs' => Z.lor b (Z.shiftl (le_value bs') 8)
  end.

Definition bytes_of_uint32 (e : endianness) (v : Z) : list Z :=
  match e with
  | LittleEndian => le_bytes 4 v
  | BigEndian => rev (le_bytes 4 v)
  end.

Definition uint32_of_bytes (e : endianness) (bs : list Z) : Z :=
  match e with
  | LittleEndian => le_value bs
  | BigEndian => le_value (rev bs)
  end.

(** A store to an address that is not allocated has no defined result. *)
Definition store_byte (a b : Z) (m : mem) : option mem :=
  match m !! a with
  | Some _ => Some (<[a := b]> m)
  | None => None
  end.

Fixpoint store_bytes (a : Z) (bs : list Z) (m : mem) : option mem :=
  match bs with
  | [] => Some m
  | b :: bs' =>
      match store_byte a b m with
      | Some m' => store_bytes (a + 1) bs' m'
      | None => None
      end
  end.

Fixpoint load_bytes (a : Z) (n : nat) (m : mem) : option (list Z) :=
  match n with
  | O => Some []
  | S n' =>
      match m !! a, load_bytes (a + 1) n' m with
      | Some b, Some bs => Some (b :: bs)
      | _, _ => None
      end
  end.

Definition store_uint32 (e : endianness) (a v : Z) (m : mem) : option mem :=
  store_bytes a (bytes_of_uint32 e v) m.

Definition load_uint32 (e : endianness) (a : Z) (m : mem) : option Z :=
  match load_bytes a 4 m with
  | Some bs => Some (uint32_of_bytes e bs)
  | None => None
  end.

(** The [n] bytes from [a] on are allocated. *)
Definition live (a : Z) (n : nat) (m : mem) : Prop :=
  forall i, 0 <= i < Z.of_nat n -> is_Some (m !! (a + i)).

(** A byte value, and [n] allocated bytes from [a] on that hold byte
    values (what a memory of [unsigned char] cells always does). *)
Definition is_byte (b : Z) : Prop := 0 <= b < 256.

Definition holds_bytes (a : Z) (n : nat) (m : mem) : Prop :=
  forall i, 0 <= i < Z.of_nat n -> exists b, m !! (a + i) = Some b /\ is_byte b.

End Memory.

(** ** Computations of the stub: state passing over the memory, with
    [None] for a step without defined behaviour *)

Module Run.
Import Memory.

Definition M (A : Type) : Type := mem -> option (A * mem).

Definition ret {A} (a : A) : M A := fun m => Some (a, m).

Definition bind {A B} (c : M A) (k : A -> M B) : M B :=
  fun m =>
    match c m with
    | Some (a, m') => k a m'
    | None => None
    end.

Definition store32 (e : endianness) (a v : Z) : M unit :=
  fun m =>
    match store_uint32 e a v m with
    | Some m' => Some (tt, m')
    | None => None
    end.

End Run.

Notation "'let*' x ':=' c 'in' k" := (Run.bind c (fun x => k))
  (at level 10, x name, c at level 100, k at level 200).

(** ** The stub *)

Module Stub.
Import CInt Memory Run.

(** What [src/stub.c] uses of [moonbit.h] and of the target. *)
Record runtime := {
  (** byte order of the target *)
  endian : endianness;
  (** [Moonbit_object_header(array)]: the address of the
      [struct moonbit_object] that belongs to the array at [array] *)
  Moonbit_object_header : Z -> Z;
  (** [offsetof(struct moonbit_object, meta)] *)
  meta_offset : Z;
  (** [Moonbit_make_array_header(kind, elem_size_shift, length)]: an
      integer expression in its three arguments *)
  Moonbit_make_array_header : Z -> Z -> Z -> Z
}.

(** Address of the header word [obj->meta] of the array at [array]. *)
Definition meta_address (rt : runtime) (array : Z) : Z :=
  Moonbit_object_header rt array + meta_offset rt.

(** [void illusory0x0_moonbit_set_array_header(void* array, uint32_t meta)]:
    [obj = Moonbit_object_header(array); obj->meta = meta;] *)
Definition illusory0x0_moonbit_set_array_header
    (rt : runtime) (array : Z) (meta : Z) : M unit :=
  let obj := Moonbit_object_header rt array in
  store32 (endian rt) (obj + meta_offset rt) meta.

(** [int32_t illusory0x0_moonbit_make_array_header(int32_t kind,
    int32_t elem_size_shift, int32_t length)]:
    [return Moonbit_make_array_header(kind, elem_size_shift, length);] *)
Definition illusory0x0_moonbit_make_array_header
    (rt : runtime) (kind elem_size_shift length : Z) : M Z :=
  ret (int32_of (Moonbit_make_array_header rt kind elem_size_shift length)).

(** Reading the header word back, as the runtime's accessors do
    ([Moonbit_object_header(array)->meta]). *)
Definition read_array_header (rt : runtime) (array : Z) (m : mem) : option Z :=
  load_uint32 (endian rt) (meta_address rt array) m.

(** The allocation sequence of the callers: compute the header, then stamp
    it in.  The [int32_t] result is converted to the [uint32_t] parameter. *)
Definition stamp_array_header
    (rt : runtime) (array kind elem_size_shift length : Z) : M unit :=
  let* h := illusory0x0_moonbit_make_array_header rt kind elem_size_shift length in
  illusory0x0_moonbit_set_array_header rt array (uint32_of h).

End Stub.

(** ** The header codec of the specification *)

Module HeaderCodec.

Inductive error := FieldOverflow | InvalidKind.

Inductive result := Ok (packed_bits : Z) | Err (e : error).

(** Modelled from the spec: the bit layout is missing from the repository
    (it is the runtime's).  The spec's table puts [kind] in the lowest
    bits, [elem_size_shift] above it and [length] in the remaining bits up
    to the width of the packed integer, and asks that the widths stay
    parameters; [kind_tags] is the closed enumeration of kind tags. *)
Record layout := {
  kind_bits : Z;
  shift_bits : Z;
  width : Z;
  kind_tags : list Z
}.

Definition shift_pos (L : layout) : Z := kind_bits L.
Definition length_pos (L : layout) : Z := kind_bits L + shift_bits L.
Definition length_bits (L : layout) : Z := width L - length_pos L.

(** [v] is representable in an unsigned field of [bits] bits. *)
Definition fits (bits v : Z) : bool := (0 <=? v) && (v <? 2 ^ bits).

Definition valid_kind (L : layout) (kind : Z) : bool :=
  existsb (Z.eqb kind) (kind_tags L).

(** The largest value of the length field, and the largest valid tag. *)
Definition max_length (L : layout) : Z := 2 ^ length_bits L - 1.

Definition max_kind (L : layout) : Z :=
  match kind_tags L with
  | [] => 0
  | t :: ts => fold_right Z.max t ts
  end.

(** Modelled from the spec: the packing expression is missing from the
    repository (it is the macro [Moonbit_make_array_header] of
    [moonbit.h]).  The fields go to disjoint bit ranges, as in the spec's
    example [2 | (3 << 8) | (5 << 11)]. *)
Definition pack (L : layout) (kind elem_size_shift length : Z) : Z :=
  Z.lor kind
    (Z.lor (Z.shiftl elem_size_shift (shift_pos L))
           (Z.shiftl length (length_pos L))).

(** Modelled from the spec: [encode] is missing from the repository.  It
    fails with [InvalidKind] when [kind] is not in the enumeration, with
    [FieldOverflow] when a field's value exceeds the bits allotted to it,
    and packs the fields otherwise.  The spec does not order the two
    checks; the kind is checked first here. *)
Definition encode (L : layout) (kind elem_size_shift length : Z) : result :=
  if negb (valid_kind L kind) then Err InvalidKind
  else if negb (fits (kind_bits L) kind
                && fits (shift_bits L) elem_size_shift
                && fits (length_bits L) length)
  then Err FieldOverflow
  else Ok (pack L kind elem_size_shift length).

(** Bits [pos, pos + bits) of [p]. *)
Definition field (p pos bits : Z) : Z := Z.land (Z.shiftr p pos) (Z.ones bits).

(** Modelled from the spec: [decode] is missing from the repository.  It
    reads the three fields off the packed integer and rejects nothing. *)
Definition decode (L : layout) (packed_bits : Z) : Z * Z * Z :=
  (field packed_bits 0 (kind_bits L),
   field packed_bits (shift_pos L) (shift_bits L),
   field packed_bits (length_pos L) (length_bits L)).

(** Layouts that make sense: the three fields fit the width and every tag
    of the enumeration fits the kind field. *)
Definition well_formed (L : layout) : Prop :=
  0 <= kind_bits L /\ 0 <= shift_bits L /\ 0 <= length_bits L /\
  Forall (fun t => fits (kind_bits L) t = true) (kind_tags L).

(** Modelled from the spec: the example layout of its interface table,
    [kind] in bits [0:8), [elem_size_shift] in bits [8:11), [length] in
    bits [11:32).  The spec names no tags; they stay a parameter. *)
Definition example_layout (tags : list Z) : layout :=
  {| kind_bits := 8; shift_bits := 3; width := 32; kind_tags := tags |}.

End HeaderCodec.

(** ** The header factory of the specification *)

Module ArrayHeaderFactory.

(** Modelled from the spec: the factory's [make_array_header] delegates to
    [HeaderCodec.encode] and propagates its errors unchanged.  It is the
    specification's counterpart of the stub's function, kept apart to
    compare the two. *)
Definition make_array_header (L : HeaderCodec.layout)
    (kind elem_size_shift length : Z) : HeaderCodec.result :=
  HeaderCodec.encode L kind elem_size_shift length.

End ArrayHeaderFactory.

(** ** Instances used to run the definitions *)

Module Sample.
Import Memory Stub HeaderCodec.

(** A small closed enumeration of tags for the example layout. *)
Definition tags : list Z := [0; 1; 2; 3].

Definition layout32 : layout := example_layout tags.

(** A runtime whose object header is two 32-bit words placed directly
    before the array, the second being [meta], and whose macro packs the
    fields by the layout [L] without any check. *)
Definition runtime_of (e : endianness) (L : layout) : runtime :=
  {| endian := e;
     Moonbit_object_header := fun array => array - 8;
     meta_offset := 4;
     Moonbit_make_array_header := pack L |}.

(** Sixteen zeroed bytes at addresses 96..111: an array at 104 with its
    header at 96..103. *)
Definition zeroed : mem :=
  list_to_map (map (fun i => (96 + Z.of_nat i, 0)) (seq 0 16)).

End Sample.

(** * Facts *)

(** ** Bytes and words *)

Module MemoryFacts.
Import Memory.

Lemma le_value_le_bytes (n : nat) (v : Z) :
  le_value (le_bytes n v) = Z.land v (Z.ones (8 * Z.of_nat n)).
Proof.
  revert v; induction n as [|n IH]; intros v.
  - simpl. now rewrite Z.land_0_r.
  - cbn [le_bytes le_value]. rewrite IH.
    apply Z.bits_inj'; intros i Hi.
    change 255 with (Z.ones 8).
    rewrite Z.lor_spec, !Z.land_spec, !Z.testbit_ones_nonneg by lia.
    destruct (Z.ltb_spec i 8) as [Hlt|Hge].
    + rewrite Z.shiftl_spec_low by lia.
      rewrite andb_true_r, orb_false_r.
      destruct (Z.ltb_spec i (8 * Z.of_nat (S n))); [|lia].
      now rewrite andb_true_r.
    + rewrite Z.shiftl_spec by lia.
      rewrite Z.land_spec, Z.shiftr_spec by lia.
      rewrite Z.testbit_ones_nonneg by lia.
      rewrite andb_false_r, orb_false_l.
      replace (i - 8 + 8) with i by lia.
      f_equal.
      destruct (Z.ltb_spec (i - 8) (8 * Z.of_nat n));
        destruct (Z.ltb_spec i (8 * Z.of_nat (S n))); auto; lia.
Qed.

Lemma length_le_bytes (n : nat) (v : Z) : length (le_bytes n v) = n.
Proof. revert v; induction n; intros; simpl; auto. Qed.

Lemma length_bytes_of_uint32 (e : endianness) (v : Z) :
  length (bytes_of_uint32 e v) = 4%nat.
Proof. destruct e; reflexivity. Qed.

Lemma uint32_of_bytes_of_uint32 (e : endianness) (v : Z) :
  0 <= v < 2 ^ 32 ->
  uint32_of_bytes e (bytes_of_uint32 e v) = v.
Proof.
  intros Hv.
  assert (le_value (le_bytes 4 v) = v) as H.
  { rewrite le_value_le_bytes. change (8 * Z.of_nat 4) with 32.
    rewrite Z.land_ones by lia. apply Z.mod_small; lia. }
  destruct e; unfold uint32_of_bytes, bytes_of_uint32.
  - exact H.
  - now rewrite rev_involutive.
Qed.

(** Storing succeeds exactly on allocated bytes. *)
Lemma store_bytes_live (bs : list Z) (a : Z) (m : mem) :
  live a (length bs) m -> is_Some (store_bytes a bs m).
Proof.
  revert a m; induction bs as [|b bs IH]; intros a m Hlive; simpl.
  - eauto.
  - unfold store_byte.
    destruct (Hlive 0) as [x Hx]; [simpl; lia|].
    rewrite Z.add_0_r in Hx. rewrite Hx.
    apply IH. intros i Hi.
    destruct (Hlive (1 + i)) as [y Hy]; [simpl length; lia|].
    replace (a + 1 + i) with (a + (1 + i)) by lia.
    rewrite lookup_insert_ne by lia. eauto.
Qed.

(** A store that succeeds wrote to allocated bytes only. *)
Lemma store_bytes_Some_live (bs : list Z) (a : Z) (m m' : mem) :
  store_bytes a bs m = Some m' -> live a (length bs) m.
Proof.
  revert a m; induction bs as [|b bs IH]; intros a m Hst i Hi;
    [simpl in Hi; lia|].
  simpl in Hst. unfold store_byte in Hst.
  destruct (m !! a) as [x|] eqn:Ha; [|discriminate].
  destruct (decide (i = 0)) as [->|Hne].
  - rewrite Z.add_0_r, Ha. eauto.
  - destruct (IH _ _ Hst (i - 1)) as [y Hy]; [simpl length in Hi; lia|].
    replace (a + 1 + (i - 1)) with (a + i) in Hy by lia.
    rewrite lookup_insert_ne in Hy by lia. eauto.
Qed.

(** After a store every byte outside the range written is as it was ... *)
Lemma store_bytes_outside (bs : list Z) (a : Z) (m m' : mem) :
  store_bytes a bs m = Some m' ->
  forall x, x < a \/ a + Z.of_nat (length bs) <= x -> m' !! x = m !! x.
Proof.
  revert a m.
  induction bs as [|b bs IH]; intros a m Hst x Hx; simpl in Hst.
  - now injection Hst as <-.
  - unfold store_byte in Hst. destruct (m !! a); [|discriminate].
    rewrite (IH _ _ Hst) by (simpl length in Hx; lia).
    apply lookup_insert_ne. simpl length in Hx. lia.
Qed.

(** ... and the bytes written are in place. *)
Lemma store_bytes_inside (bs : list Z) (a : Z) (m m' : mem) :
  store_bytes a bs m = Some m' ->
  forall (i : nat) (b : Z), bs !! i = Some b -> m' !! (a + Z.of_nat i) = Some b.
Proof.
  revert a m.
  induction bs as [|b0 bs IH]; intros a m Hst i b Hi; [discriminate|].
  simpl in Hst. unfold store_byte in Hst.
  destruct (m !! a) eqn:Ha; [|discriminate].
  destruct i as [|i]; simpl in Hi.
  - injection Hi as ->. rewrite Z.add_0_r.
    rewrite (store_bytes_outside _ _ _ _ Hst) by lia.
    apply lookup_insert_eq.
  - replace (a + Z.of_nat (S i)) with (a + 1 + Z.of_nat i) by lia.
    eapply IH; eauto.
Qed.

Lemma load_bytes_lookup (bs : list Z) (a : Z) (m : mem) :
  (forall (i : nat) (b : Z), bs !! i = Some b -> m !! (a + Z.of_nat i) = Some b) ->
  load_bytes a (length bs) m = Some bs.
Proof.
  revert a; induction bs as [|b bs IH]; intros a H; simpl; [reflexivity|].
  pose proof (H 0%nat b eq_refl) as H0. rewrite Z.add_0_r in H0. rewrite H0.
  rewrite IH; [reflexivity|].
  intros i c Hi. replace (a + 1 + Z.of_nat i) with (a + Z.of_nat (S i)) by lia.
  now apply H.
Qed.

(** The memory after a store is determined by the bytes written and the
    memory before it, byte by byte. *)
Lemma store_bytes_lookup (bs : list Z) (a : Z) (m m' : mem) (x : Z) :
  store_bytes a bs m = Some m' ->
  m' !! x =
    if decide (a <= x < a + Z.of_nat (length bs))
    then bs !! Z.to_nat (x - a)
    else m !! x.
Proof.
  intros Hst. case_decide as Hx.
  - destruct (lookup_lt_is_Some_2 bs (Z.to_nat (x - a))) as [b Hb]; [lia|].
    rewrite Hb. replace x with (a + Z.of_nat (Z.to_nat (x - a))) at 1 by lia.
    eapply store_bytes_inside; eauto.
  - eapply store_bytes_outside; eauto. lia.
Qed.

(** A second store of as many bytes at the same place overwrites the first. *)
Lemma store_bytes_absorb (bs1 bs2 : list Z) (a : Z) (m m1 : mem) :
  length bs1 = length bs2 ->
  store_bytes a bs1 m = Some m1 ->
  store_bytes a bs2 m1 = store_bytes a bs2 m.
Proof.
  intros Hlen H1.
  assert (live a (length bs2) m) as Hlive.
  { rewrite <- Hlen. eapply store_bytes_Some_live; eauto. }
  assert (live a (length bs2) m1) as Hlive1.
  { intros i Hi.
    rewrite (store_bytes_lookup _ _ _ _ (a + i) H1).
    rewrite decide_True by lia.
    apply lookup_lt_is_Some_2. lia. }
  destruct (store_bytes_live _ _ _ Hlive) as [r Hr].
  destruct (store_bytes_live _ _ _ Hlive1) as [r1 Hr1].
  rewrite Hr, Hr1. f_equal. apply map_eq; intros x.
  rewrite (store_bytes_lookup _ _ _ _ x Hr), (store_bytes_lookup _ _ _ _ x Hr1).
  case_decide as Hx; [reflexivity|].
  eapply store_bytes_outside; eauto. lia.
Qed.

(** The same facts for 32-bit words. *)
Lemma store_uint32_live (e : endianness) (a v : Z) (m : mem) :
  live a 4 m -> is_Some (store_uint32 e a v m).
Proof.
  intros H. apply store_bytes_live. now rewrite length_bytes_of_uint32.
Qed.

Lemma load_store_uint32 (e : endianness) (a v : Z) (m m' : mem) :
  0 <= v < 2 ^ 32 ->
  store_uint32 e a v m = Some m' ->
  load_uint32 e a m' = Some v.
Proof.
  intros Hv Hst. unfold load_uint32.
  rewrite <- (length_bytes_of_uint32 e v).
  rewrite (load_bytes_lookup _ a m' (store_bytes_inside _ _ _ _ Hst)).
  now rewrite uint32_of_bytes_of_uint32.
Qed.

Lemma store_uint32_outside (e : endianness) (a v : Z) (m m' : mem) :
  store_uint32 e a v m = Some m' ->
  forall x, x < a \/ a + 4 <= x -> m' !! x = m !! x.
Proof.
  intros Hst x Hx. eapply store_bytes_outside; eauto.
  rewrite length_bytes_of_uint32. lia.
Qed.

Lemma store_uint32_dom (e : endianness) (a v : Z) (m m' : mem) :
  store_uint32 e a v m = Some m' -> dom m' = dom m.
Proof.
  intros Hst. apply set_eq; intros x. rewrite !elem_of_dom.
  pose proof (store_bytes_Some_live _ _ _ _ Hst) as Hlive.
  rewrite (store_bytes_lookup _ _ _ _ x Hst).
  case_decide as Hx; [|reflexivity].
  split; intros _.
  - specialize (Hlive (x - a)). replace (a + (x - a)) with x in Hlive by lia.
    apply Hlive. lia.
  - apply lookup_lt_is_Some_2. lia.
Qed.

Lemma store_uint32_absorb (e : endianness) (a v1 v2 : Z) (m m1 : mem) :
  store_uint32 e a v1 m = Some m1 ->
  store_uint32 e a v2 m1 = store_uint32 e a v2 m.
Proof.
  apply store_bytes_absorb. now rewrite !length_bytes_of_uint32.
Qed.

End MemoryFacts.

(** ** The codec of the specification *)

Module HeaderCodecFacts.
Import HeaderCodec.

Lemma fits_spec (bits v : Z) : fits bits v = true <-> 0 <= v < 2 ^ bits.
Proof.
  unfold fits. rewrite andb_true_iff, Z.leb_le, Z.ltb_lt. tauto.
Qed.

Lemma fits_false (bits v : Z) : fits bits v = false <-> v < 0 \/ 2 ^ bits <= v.
Proof.
  unfold fits. rewrite andb_false_iff, Z.leb_gt, Z.ltb_ge. tauto.
Qed.

(** A value that fits [bits] bits has no bit set from [bits] on. *)
Lemma fits_testbit_high (bits v : Z) :
  0 <= bits -> fits bits v = true ->
  forall i, bits <= i -> Z.testbit v i = false.
Proof.
  intros Hb Hv i Hi. apply fits_spec in Hv.
  rewrite <- (Z.mod_small v (2 ^ bits)) by lia.
  apply Z.mod_pow2_bits_high. lia.
Qed.

Lemma field_fits (p pos bits : Z) : 0 <= bits -> fits bits (field p pos bits) = true.
Proof.
  intros Hb. apply fits_spec. unfold field.
  rewrite Z.land_ones by lia. apply Z.mod_pos_bound. lia.
Qed.

Lemma testbit_field (p pos bits i : Z) :
  0 <= bits -> 0 <= i ->
  Z.testbit (field p pos bits) i = Z.testbit p (i + pos) && (i <? bits).
Proof.
  intros Hb Hi. unfold field.
  now rewrite Z.land_spec, Z.shiftr_spec, Z.testbit_ones_nonneg by lia.
Qed.

Lemma testbit_pack (L : layout) (k s l i : Z) :
  0 <= i ->
  Z.testbit (pack L k s l) i =
    Z.testbit k i || (Z.testbit s (i - shift_pos L) || Z.testbit l (i - length_pos L)).
Proof.
  intros Hi. unfold pack. now rewrite !Z.lor_spec, !Z.shiftl_spec by lia.
Qed.

(** Decoding undoes packing for fields within their bounds. *)
Lemma decode_pack (L : layout) (k s l : Z) :
  0 <= kind_bits L -> 0 <= shift_bits L -> 0 <= length_bits L ->
  fits (kind_bits L) k = true ->
  fits (shift_bits L) s = true ->
  fits (length_bits L) l = true ->
  decode L (pack L k s l) = (k, s, l).
Proof.
  intros Hkb Hsb Hlb Hk Hs Hl.
  pose proof (fits_testbit_high _ _ Hkb Hk) as Hk'.
  pose proof (fits_testbit_high _ _ Hsb Hs) as Hs'.
  pose proof (fits_testbit_high _ _ Hlb Hl) as Hl'.
  unfold decode, shift_pos, length_pos.
  repeat f_equal; apply Z.bits_inj'; intros i Hi;
    rewrite testbit_field by lia; rewrite testbit_pack by lia;
    unfold shift_pos, length_pos.
  - destruct (Z.ltb_spec i (kind_bits L)).
    + rewrite !Z.testbit_neg_r with (n := i + 0 - _) by lia.
      rewrite Z.add_0_r. now rewrite !orb_false_r, andb_true_r.
    + rewrite andb_false_r. symmetry. apply Hk'. lia.
  - destruct (Z.ltb_spec i (shift_bits L)).
    + rewrite Hk' by lia.
      rewrite Z.testbit_neg_r with (n := i + _ - (_ + _)) by lia.
      replace (i + kind_bits L - kind_bits L) with i by lia.
      now rewrite orb_false_l, orb_false_r, andb_true_r.
    + rewrite andb_false_r. symmetry. apply Hs'. lia.
  - destruct (Z.ltb_spec i (length_bits L)).
    + rewrite Hk' by lia. rewrite Hs' by lia.
      replace (i + (kind_bits L + shift_bits L) - (kind_bits L + shift_bits L))
        with i by lia.
      now rewrite !orb_false_l, andb_true_r.
    + rewrite andb_false_r. symmetry. apply Hl'. lia.
Qed.

(** Packing undoes decoding on every value of the packed integer type. *)
Lemma pack_decode (L : layout) (p : Z) :
  0 <= kind_bits L -> 0 <= shift_bits L -> 0 <= length_bits L ->
  fits (width L) p = true ->
  pack L (field p 0 (kind_bits L))
         (field p (shift_pos L) (shift_bits L))
         (field p (length_pos L) (length_bits L)) = p.
Proof.
  intros Hkb Hsb Hlb Hp.
  assert (0 <= width L) as Hw by (unfold length_bits, length_pos in Hlb; lia).
  pose proof (fits_testbit_high _ _ Hw Hp) as Hp'.
  apply Z.bits_inj'; intros i Hi. rewrite testbit_pack by lia.
  unfold shift_pos, length_pos, length_bits, length_pos in *.
  rewrite testbit_field by lia.
  destruct (Z.ltb_spec i (kind_bits L)).
  - rewrite !Z.testbit_neg_r with (a := field _ _ _) by lia.
    now rewrite Z.add_0_r, andb_true_r, !orb_false_r.
  - rewrite andb_false_r, orb_false_l.
    destruct (Z.ltb_spec i (kind_bits L + shift_bits L)).
    + rewrite Z.testbit_neg_r with (n := i - (_ + _)) by lia.
      rewrite testbit_field by lia.
      replace (i - kind_bits L + kind_bits L) with i by lia.
      destruct (Z.ltb_spec (i - kind_bits L) (shift_bits L)); [|lia].
      now rewrite andb_true_r, orb_false_r.
    + rewrite !testbit_field by lia.
      replace (i - kind_bits L + kind_bits L) with i by lia.
      replace (i - (kind_bits L + shift_bits L) + (kind_bits L + shift_bits L))
        with i by lia.
      destruct (Z.ltb_spec (i - kind_bits L) (shift_bits L)); [lia|].
      rewrite andb_false_r, orb_false_l.
      destruct (Z.ltb_spec (i - (kind_bits L + shift_bits L))
                  (width L - (kind_bits L + shift_bits L))).
      * now rewrite andb_true_r.
      * rewrite andb_false_r. symmetry. apply Hp'. lia.
Qed.

Lemma valid_kind_In (L : layout) (k : Z) :
  valid_kind L k = true <-> In k (kind_tags L).
Proof.
  unfold valid_kind. rewrite existsb_exists. split.
  - intros (x & Hx & He). apply Z.eqb_eq in He. now subst.
  - intros H. exists k. split; [exact H | apply Z.eqb_refl].
Qed.

Lemma valid_kind_fits (L : layout) (k : Z) :
  well_formed L -> valid_kind L k = true -> fits (kind_bits L) k = true.
Proof.
  intros (_ & _ & _ & Htags) Hk. apply valid_kind_In in Hk.
  rewrite List.Forall_forall in Htags. now apply Htags.
Qed.

Lemma fold_max_In (t : Z) (ts : list Z) : In (fold_right Z.max t ts) (t :: ts).
Proof.
  induction ts as [|x ts IH]; simpl; [now left|].
  destruct (Z.max_spec x (fold_right Z.max t ts)) as [[_ ->]|[_ ->]].
  - destruct IH as [IH|IH]; [now left | right; now right].
  - right; now left.
Qed.

(** The largest tag of a non-empty enumeration is one of its tags. *)
Lemma max_kind_valid (L : layout) :
  kind_tags L <> [] -> valid_kind L (max_kind L) = true.
Proof.
  intros Hne. apply valid_kind_In. unfold max_kind.
  destruct (kind_tags L) as [|t ts]; [congruence|]. apply fold_max_In.
Qed.

Lemma max_length_fits (L : layout) :
  0 <= length_bits L -> fits (length_bits L) (max_length L) = true.
Proof.
  intros H. apply fits_spec. unfold max_length.
  assert (0 < 2 ^ length_bits L) by (apply Z.pow_pos_nonneg; lia). lia.
Qed.

Lemma encode_valid (L : layout) (k s l : Z) :
  valid_kind L k = true ->
  fits (kind_bits L) k = true ->
  fits (shift_bits L) s = true ->
  fits (length_bits L) l = true ->
  encode L k s l = Ok (pack L k s l).
Proof.
  intros Hk Hfk Hs Hl. unfold encode. now rewrite Hk, Hfk, Hs, Hl.
Qed.

(** The example layout with the sample tags is well formed. *)
Lemma sample_layout_well_formed : well_formed Sample.layout32.
Proof.
  unfold well_formed. repeat split; try (vm_compute; congruence).
  repeat constructor.
Defined.

End HeaderCodecFacts.

(** ** C integer conversions *)

Module CIntFacts.
Import CInt.

Lemma int32_of_range (z : Z) : is_int32 (int32_of z).
Proof.
  unfold is_int32, int32_of.
  pose proof (Z.mod_pos_bound (z + 2 ^ 31) (2 ^ 32) ltac:(lia)). lia.
Qed.

Lemma uint32_of_range (z : Z) : is_uint32 (uint32_of z).
Proof. unfold is_uint32, uint32_of. apply Z.mod_pos_bound. lia. Qed.

(** Converting to [int32_t] and on to [uint32_t] keeps the low 32 bits. *)
Lemma uint32_of_int32_of (z : Z) : uint32_of (int32_of z) = z mod 2 ^ 32.
Proof.
  unfold uint32_of, int32_of.
  rewrite Zminus_mod_idemp_l. f_equal. lia.
Qed.

(** An [int32_t] passed through [uint32_t] comes back unchanged. *)
Lemma int32_of_uint32_of (h : Z) : is_int32 h -> int32_of (uint32_of h) = h.
Proof.
  unfold is_int32, int32_of, uint32_of. intros Hh.
  rewrite Zplus_mod_idemp_l. rewrite Z.mod_small by lia. lia.
Qed.

End CIntFacts.

(** ** The stub on the memory *)

Module StubFacts.
Import CInt Memory Run Stub HeaderCodec.

(** Liveness of four bytes of a concrete memory, byte by byte. *)
Ltac live_by_cases :=
  let i := fresh "i" in
  let Hi := fresh "Hi" in
  let Hc := fresh "Hc" in
  intros i Hi;
  assert (i = 0 \/ i = 1 \/ i = 2 \/ i = 3) as Hc by (simpl in Hi; lia);
  destruct Hc as [-> | [-> | [-> | ->]]]; vm_compute; eauto.

Lemma set_array_header_run (rt : runtime) (array meta : Z) (m : mem) :
  illusory0x0_moonbit_set_array_header rt array meta m =
    match store_uint32 (endian rt) (meta_address rt array) meta m with
    | Some m' => Some (tt, m')
    | None => None
    end.
Proof. reflexivity. Qed.

Lemma make_array_header_run (rt : runtime) (k s l : Z) (m : mem) :
  illusory0x0_moonbit_make_array_header rt k s l m =
    Some (int32_of (Moonbit_make_array_header rt k s l), m).
Proof. reflexivity. Qed.

(** On a live header word the store succeeds and the word reads back. *)
Lemma set_array_header_stores (rt : runtime) (array meta : Z) (m : mem) :
  is_uint32 meta ->
  live (meta_address rt array) 4 m ->
  exists m',
    store_uint32 (endian rt) (meta_address rt array) meta m = Some m' /\
    illusory0x0_moonbit_set_array_header rt array meta m = Some (tt, m') /\
    read_array_header rt array m' = Some meta.
Proof.
  intros Hmeta Hlive. rewrite set_array_header_run.
  destruct (MemoryFacts.store_uint32_live (endian rt) _ meta m Hlive) as [m' Hst].
  rewrite Hst. exists m'. repeat split.
  eapply MemoryFacts.load_store_uint32; eauto.
Qed.

(** Without a live header word the store has no defined result: the stub
    checks nothing itself. *)
Example set_array_header_dead_reference :
  illusory0x0_moonbit_set_array_header
    (Sample.runtime_of LittleEndian Sample.layout32) 104 11010 ∅ = None /\
  illusory0x0_moonbit_set_array_header
    (Sample.runtime_of LittleEndian Sample.layout32) 116 11010 Sample.zeroed = None.
Proof. split; reflexivity. Qed.

(** C5. In-place mutation without re-validation: for every [uint32_t]
    value [meta], produced by [make_array_header] or not, and every array
    whose header word is allocated, [set_array_header] succeeds, the header
    word read back is exactly [meta], every byte outside the four bytes of
    the header word keeps its value, and no byte is allocated or freed. *)
Theorem set_array_header_writes_meta (rt : runtime) (array meta : Z) (m : mem) :
  is_uint32 meta ->
  live (meta_address rt array) 4 m ->
  exists m',
    illusory0x0_moonbit_set_array_header rt array meta m = Some (tt, m') /\
    read_array_header rt array m' = Some meta /\
    (forall a, a < meta_address rt array \/ meta_address rt array + 4 <= a ->
               m' !! a = m !! a) /\
    dom m' = dom m.
Proof.
  intros Hmeta Hlive.
  destruct (set_array_header_stores rt array meta m Hmeta Hlive)
    as (m' & Hst & Hrun & Hread).
  exists m'. split; [exact Hrun|]. split; [exact Hread|]. split.
  - intros a Ha. eapply MemoryFacts.store_uint32_outside; eauto.
  - eapply MemoryFacts.store_uint32_dom; eauto.
Qed.

Lemma set_array_header_writes_meta_witness :
  exists m',
    illusory0x0_moonbit_set_array_header
      (Sample.runtime_of BigEndian Sample.layout32) 104 4294966018 Sample.zeroed
      = Some (tt, m') /\
    read_array_header (Sample.runtime_of BigEndian Sample.layout32) 104 m'
      = Some 4294966018 /\
    (forall a, a < 100 \/ 100 + 4 <= a -> m' !! a = Sample.zeroed !! a) /\
    dom m' = dom Sample.zeroed.
Proof.
  apply (set_array_header_writes_meta
           (Sample.runtime_of BigEndian Sample.layout32) 104 4294966018 Sample.zeroed).
  - unfold is_uint32. lia.
  - live_by_cases.
Defined.

(** C9. Overwrite semantics: on an array whose header word is allocated,
    [set_array_header(obj, m1)] followed by [set_array_header(obj, m2)]
    ends in the very memory that [set_array_header(obj, m2)] alone
    produces, whose header word is [m2]; with [m1 = m2] this is
    idempotence. *)
Theorem set_array_header_last_write_wins
    (rt : runtime) (array m1 m2 : Z) (m : mem) :
  is_uint32 m1 -> is_uint32 m2 ->
  live (meta_address rt array) 4 m ->
  (let* _ := illusory0x0_moonbit_set_array_header rt array m1 in
   illusory0x0_moonbit_set_array_header rt array m2) m
    = illusory0x0_moonbit_set_array_header rt array m2 m /\
  (let* _ := illusory0x0_moonbit_set_array_header rt array m2 in
   illusory0x0_moonbit_set_array_header rt array m2) m
    = illusory0x0_moonbit_set_array_header rt array m2 m /\
  exists m',
    illusory0x0_moonbit_set_array_header rt array m2 m = Some (tt, m') /\
    read_array_header rt array m' = Some m2.
Proof.
  intros H1 H2 Hlive.
  assert (forall v, (let* _ := illusory0x0_moonbit_set_array_header rt array v in
                     illusory0x0_moonbit_set_array_header rt array m2) m
                    = illusory0x0_moonbit_set_array_header rt array m2 m) as Habs.
  { intros v. unfold bind. rewrite !set_array_header_run.
    destruct (MemoryFacts.store_uint32_live (endian rt) _ v m Hlive) as [mv Hv].
    rewrite Hv, set_array_header_run.
    now rewrite (MemoryFacts.store_uint32_absorb _ _ _ _ _ _ Hv). }
  split; [apply Habs|]. split; [apply Habs|].
  destruct (set_array_header_stores rt array m2 m H2 Hlive)
    as (m' & _ & Hrun & Hread).
  eauto.
Qed.

Lemma set_array_header_last_write_wins_witness :
  (let* _ := illusory0x0_moonbit_set_array_header
               (Sample.runtime_of LittleEndian Sample.layout32) 104 11010 in
   illusory0x0_moonbit_set_array_header
     (Sample.runtime_of LittleEndian Sample.layout32) 104 770) Sample.zeroed
    = illusory0x0_moonbit_set_array_header
        (Sample.runtime_of LittleEndian Sample.layout32) 104 770 Sample.zeroed /\
  (let* _ := illusory0x0_moonbit_set_array_header
               (Sample.runtime_of LittleEndian Sample.layout32) 104 770 in
   illusory0x0_moonbit_set_array_header
     (Sample.runtime_of LittleEndian Sample.layout32) 104 770) Sample.zeroed
    = illusory0x0_moonbit_set_array_header
        (Sample.runtime_of LittleEndian Sample.layout32) 104 770 Sample.zeroed /\
  exists m',
    illusory0x0_moonbit_set_array_header
      (Sample.runtime_of LittleEndian Sample.layout32) 104 770 Sample.zeroed
      = Some (tt, m') /\
    read_array_header (Sample.runtime_of LittleEndian Sample.layout32) 104 m'
      = Some 770.
Proof.
  apply (set_array_header_last_write_wins
           (Sample.runtime_of LittleEndian Sample.layout32) 104 11010 770
           Sample.zeroed).
  - unfold is_uint32. lia.
  - unfold is_uint32. lia.
  - live_by_cases.
Defined.

(** C10. Signed and unsigned interface: [make_array_header] returns an
    [int32_t] [h]; passed on as the [uint32_t] argument of
    [set_array_header] it becomes [h] modulo [2^32], which is the macro's
    value modulo [2^32], converts back to [h], and is the word the header
    holds afterwards: the 32-bit pattern is kept. *)
Theorem header_bits_survive_signedness
    (rt : runtime) (array kind elem_size_shift length : Z) (m : mem) :
  live (meta_address rt array) 4 m ->
  exists h m',
    illusory0x0_moonbit_make_array_header rt kind elem_size_shift length m
      = Some (h, m) /\
    is_int32 h /\
    uint32_of h = Moonbit_make_array_header rt kind elem_size_shift length mod 2 ^ 32 /\
    int32_of (uint32_of h) = h /\
    stamp_array_header rt array kind elem_size_shift length m = Some (tt, m') /\
    read_array_header rt array m' = Some (uint32_of h).
Proof.
  intros Hlive.
  set (h := int32_of (Moonbit_make_array_header rt kind elem_size_shift length)).
  destruct (set_array_header_stores rt array (uint32_of h) m
              (CIntFacts.uint32_of_range h) Hlive) as (m' & _ & Hrun & Hread).
  exists h, m'. split; [reflexivity|].
  split; [apply CIntFacts.int32_of_range|].
  split; [apply CIntFacts.uint32_of_int32_of|].
  split; [apply CIntFacts.int32_of_uint32_of, CIntFacts.int32_of_range|].
  split; [|exact Hread].
  unfold stamp_array_header, bind. rewrite make_array_header_run. exact Hrun.
Qed.

Lemma header_bits_survive_signedness_witness :
  exists h m',
    illusory0x0_moonbit_make_array_header
      (Sample.runtime_of LittleEndian Sample.layout32) 2 3 2097151 Sample.zeroed
      = Some (h, Sample.zeroed) /\
    is_int32 h /\
    uint32_of h = pack Sample.layout32 2 3 2097151 mod 2 ^ 32 /\
    int32_of (uint32_of h) = h /\
    stamp_array_header
      (Sample.runtime_of LittleEndian Sample.layout32) 104 2 3 2097151 Sample.zeroed
      = Some (tt, m') /\
    read_array_header (Sample.runtime_of LittleEndian Sample.layout32) 104 m'
      = Some (uint32_of h).
Proof.
  apply (header_bits_survive_signedness
           (Sample.runtime_of LittleEndian Sample.layout32) 104 2 3 2097151
           Sample.zeroed).
  live_by_cases.
Defined.

(** C7. Determinism: two calls of [make_array_header] with the same
    arguments return the same [int32_t], whatever the memories they run
    in. *)
Theorem make_array_header_deterministic
    (rt : runtime) (kind elem_size_shift length : Z) (m1 m2 : mem) :
  exists h,
    illusory0x0_moonbit_make_array_header rt kind elem_size_shift length m1
      = Some (h, m1) /\
    illusory0x0_moonbit_make_array_header rt kind elem_size_shift length m2
      = Some (h, m2).
Proof.
  exists (int32_of (Moonbit_make_array_header rt kind elem_size_shift length)).
  split; apply make_array_header_run.
Qed.

(** C6, as the stub has it. [make_array_header] has no side effect: in
    every memory, the empty one included (no backing memory yet), it
    returns an [int32_t] and leaves the memory as it found it.  That holds
    for every length, one beyond the capacity of the length field too:
    there the stub returns as well, it does not fail. *)
Theorem make_array_header_touches_no_memory
    (rt : runtime) (kind elem_size_shift length : Z) (m : mem) :
  (exists h, is_int32 h /\
     illusory0x0_moonbit_make_array_header rt kind elem_size_shift length m
       = Some (h, m)) /\
  (exists h, is_int32 h /\
     illusory0x0_moonbit_make_array_header rt kind elem_size_shift length ∅
       = Some (h, ∅)).
Proof.
  split; eexists; (split; [apply CIntFacts.int32_of_range|]);
    apply make_array_header_run.
Qed.

(** Against C6 as stated: with a length beyond the capacity of the length
    field the specification's factory fails with [FieldOverflow], but the
    stub returns a header (the one of length 5) and nothing fails. *)
Lemma make_array_header_returns_beyond_capacity :
  ArrayHeaderFactory.make_array_header Sample.layout32 1 0
      (max_length Sample.layout32 + 6) = Err FieldOverflow /\
  illusory0x0_moonbit_make_array_header
      (Sample.runtime_of LittleEndian Sample.layout32) 1 0
      (max_length Sample.layout32 + 6) Sample.zeroed
    = Some (10241, Sample.zeroed) /\
  illusory0x0_moonbit_make_array_header
      (Sample.runtime_of LittleEndian Sample.layout32) 1 0 5 Sample.zeroed
    = Some (10241, Sample.zeroed).
Proof. repeat split. Qed.

End StubFacts.

(** ** The stub against the specification's factory *)

Module Refinement.
Import CInt Memory Run Stub HeaderCodec.

(** C2, as the code has it.  The codec of the specification rejects an
    overflow: for a valid kind, [encode] fails with [FieldOverflow] as soon
    as the shift or the length does not fit its field, so at a length one
    beyond the maximum, and succeeds at the maximum.  The stub does not
    propagate that error: for every input it returns the macro's value
    converted to [int32_t]. *)
Theorem overflow_rejected_by_codec_not_by_stub
    (rt : runtime) (L : layout) (kind elem_size_shift length : Z) (m : mem) :
  well_formed L ->
  valid_kind L kind = true ->
  fits (shift_bits L) elem_size_shift = true ->
  (forall s l, fits (shift_bits L) s = false \/ fits (length_bits L) l = false ->
     ArrayHeaderFactory.make_array_header L kind s l = Err FieldOverflow) /\
  ArrayHeaderFactory.make_array_header L kind elem_size_shift (max_length L + 1)
    = Err FieldOverflow /\
  ArrayHeaderFactory.make_array_header L kind elem_size_shift (max_length L)
    = Ok (pack L kind elem_size_shift (max_length L)) /\
  illusory0x0_moonbit_make_array_header rt kind elem_size_shift length m
    = Some (int32_of (Moonbit_make_array_header rt kind elem_size_shift length), m).
Proof.
  intros Hwf Hk Hs.
  pose proof (HeaderCodecFacts.valid_kind_fits L kind Hwf Hk) as Hfk.
  destruct Hwf as (Hkb & Hsb & Hlb & _).
  assert (forall s l,
            fits (shift_bits L) s = false \/ fits (length_bits L) l = false ->
            encode L kind s l = Err FieldOverflow) as Hover.
  { intros s l Hsl. unfold encode. rewrite Hk, Hfk. simpl.
    destruct Hsl as [-> | ->]; [reflexivity|].
    now rewrite andb_false_r. }
  unfold ArrayHeaderFactory.make_array_header.
  split; [exact Hover|]. split; [|split].
  - apply Hover. right. apply HeaderCodecFacts.fits_false. right.
    unfold max_length. lia.
  - apply HeaderCodecFacts.encode_valid; auto.
    now apply HeaderCodecFacts.max_length_fits.
  - reflexivity.
Qed.

Lemma overflow_rejected_by_codec_not_by_stub_witness :
  (forall s l, fits 3 s = false \/ fits 21 l = false ->
     ArrayHeaderFactory.make_array_header Sample.layout32 2 s l = Err FieldOverflow) /\
  ArrayHeaderFactory.make_array_header Sample.layout32 2 3 (2097151 + 1)
    = Err FieldOverflow /\
  ArrayHeaderFactory.make_array_header Sample.layout32 2 3 2097151
    = Ok 4294966018 /\
  illusory0x0_moonbit_make_array_header
      (Sample.runtime_of LittleEndian Sample.layout32) 2 3 (2097151 + 1) ∅
    = Some (770, ∅).
Proof.
  apply (overflow_rejected_by_codec_not_by_stub
           (Sample.runtime_of LittleEndian Sample.layout32) Sample.layout32
           2 3 (2097151 + 1) ∅).
  - exact HeaderCodecFacts.sample_layout_well_formed.
  - reflexivity.
  - reflexivity.
Defined.

(** Against C2 as stated: at a length one beyond the maximum of the length
    field the specification's factory fails with [FieldOverflow], but the
    stub returns 770, the header of length 0. *)
Lemma overflowing_length_is_returned :
  max_length Sample.layout32 = 2097151 /\
  ArrayHeaderFactory.make_array_header Sample.layout32 2 3 2097152
    = Err FieldOverflow /\
  illusory0x0_moonbit_make_array_header
      (Sample.runtime_of LittleEndian Sample.layout32) 2 3 2097152 ∅
    = Some (770, ∅) /\
  decode Sample.layout32 770 = (2, 3, 0).
Proof. repeat split. Qed.

(** C3, as the code has it.  The codec of the specification rejects an
    unknown kind: [encode] fails with [InvalidKind] for every kind outside
    the enumeration and accepts the largest valid tag (with shift and
    length in range).  The stub reports no [InvalidKind]: for every kind
    it returns the macro's value converted to [int32_t]. *)
Theorem invalid_kind_rejected_by_codec_not_by_stub
    (rt : runtime) (L : layout) (kind elem_size_shift length : Z) (m : mem) :
  well_formed L ->
  kind_tags L <> [] ->
  fits (shift_bits L) elem_size_shift = true ->
  fits (length_bits L) length = true ->
  (forall k s l, valid_kind L k = false ->
     ArrayHeaderFactory.make_array_header L k s l = Err InvalidKind) /\
  ArrayHeaderFactory.make_array_header L (max_kind L) elem_size_shift length
    = Ok (pack L (max_kind L) elem_size_shift length) /\
  illusory0x0_moonbit_make_array_header rt kind elem_size_shift length m
    = Some (int32_of (Moonbit_make_array_header rt kind elem_size_shift length), m).
Proof.
  intros Hwf Hne Hs Hl.
  unfold ArrayHeaderFactory.make_array_header.
  split; [|split].
  - intros k s l Hk. unfold encode. now rewrite Hk.
  - pose proof (HeaderCodecFacts.max_kind_valid L Hne) as Hmax.
    apply HeaderCodecFacts.encode_valid; auto.
    now apply HeaderCodecFacts.valid_kind_fits.
  - reflexivity.
Qed.

Lemma invalid_kind_rejected_by_codec_not_by_stub_witness :
  (forall k s l, valid_kind Sample.layout32 k = false ->
     ArrayHeaderFactory.make_array_header Sample.layout32 k s l = Err InvalidKind) /\
  ArrayHeaderFactory.make_array_header Sample.layout32 3 3 5 = Ok 11011 /\
  illusory0x0_moonbit_make_array_header
      (Sample.runtime_of LittleEndian Sample.layout32) 4 3 5 ∅
    = Some (11012, ∅).
Proof.
  apply (invalid_kind_rejected_by_codec_not_by_stub
           (Sample.runtime_of LittleEndian Sample.layout32) Sample.layout32
           4 3 5 ∅).
  - exact HeaderCodecFacts.sample_layout_well_formed.
  - discriminate.
  - reflexivity.
  - reflexivity.
Defined.

(** Against C3 as stated: for the tag 4, outside the enumeration 0..3, the
    specification's factory fails with [InvalidKind], but the stub returns
    11012, which decodes to that very tag. *)
Lemma invalid_kind_is_returned :
  valid_kind Sample.layout32 4 = false /\
  ArrayHeaderFactory.make_array_header Sample.layout32 4 3 5 = Err InvalidKind /\
  illusory0x0_moonbit_make_array_header
      (Sample.runtime_of LittleEndian Sample.layout32) 4 3 5 ∅
    = Some (11012, ∅) /\
  decode Sample.layout32 11012 = (4, 3, 5).
Proof. repeat split. Qed.

End Refinement.

(** ** Round trip, totality and the example of the specification *)

Module CodecClaims.
Import CInt Memory Run Stub HeaderCodec.

(** C1. Round trip: for every kind of the enumeration and every shift and
    length within their fields, [encode] succeeds and [decode] of the
    packed header gives back the same triple. *)
Theorem decode_encode_round_trip (L : layout) (kind elem_size_shift length : Z) :
  well_formed L ->
  valid_kind L kind = true ->
  fits (shift_bits L) elem_size_shift = true ->
  fits (length_bits L) length = true ->
  exists packed_bits,
    encode L kind elem_size_shift length = Ok packed_bits /\
    decode L packed_bits = (kind, elem_size_shift, length).
Proof.
  intros Hwf Hk Hs Hl.
  pose proof (HeaderCodecFacts.valid_kind_fits L kind Hwf Hk) as Hfk.
  destruct Hwf as (Hkb & Hsb & Hlb & _).
  exists (pack L kind elem_size_shift length). split.
  - now apply HeaderCodecFacts.encode_valid.
  - now apply HeaderCodecFacts.decode_pack.
Qed.

Lemma decode_encode_round_trip_witness :
  exists packed_bits,
    encode Sample.layout32 3 7 2097151 = Ok packed_bits /\
    decode Sample.layout32 packed_bits = (3, 7, 2097151).
Proof.
  apply (decode_encode_round_trip Sample.layout32 3 7 2097151).
  - exact HeaderCodecFacts.sample_layout_well_formed.
  - reflexivity.
  - reflexivity.
  - reflexivity.
Defined.

(** C8. Totality of [decode]: every value of the packed integer type
    decodes to a triple, each component within its field, and the triple
    packs back to the very same bits; the enumeration of kinds plays no
    part, so a tag that is not in use is decoded like any other. *)
Theorem decode_total (L : layout) (packed_bits : Z) :
  well_formed L ->
  fits (width L) packed_bits = true ->
  exists kind elem_size_shift length,
    decode L packed_bits = (kind, elem_size_shift, length) /\
    fits (kind_bits L) kind = true /\
    fits (shift_bits L) elem_size_shift = true /\
    fits (length_bits L) length = true /\
    pack L kind elem_size_shift length = packed_bits /\
    forall tags,
      decode {| kind_bits := kind_bits L; shift_bits := shift_bits L;
                width := width L; kind_tags := tags |} packed_bits
        = (kind, elem_size_shift, length).
Proof.
  intros (Hkb & Hsb & Hlb & _) Hp.
  exists (field packed_bits 0 (kind_bits L)),
         (field packed_bits (shift_pos L) (shift_bits L)),
         (field packed_bits (length_pos L) (length_bits L)).
  split; [reflexivity|].
  repeat split; auto using HeaderCodecFacts.field_fits.
  now apply HeaderCodecFacts.pack_decode.
Qed.

Lemma decode_total_witness :
  exists kind elem_size_shift length,
    decode Sample.layout32 4294967295 = (kind, elem_size_shift, length) /\
    fits 8 kind = true /\
    fits 3 elem_size_shift = true /\
    fits 21 length = true /\
    pack Sample.layout32 kind elem_size_shift length = 4294967295 /\
    forall tags,
      decode {| kind_bits := 8; shift_bits := 3; width := 32; kind_tags := tags |}
        4294967295 = (kind, elem_size_shift, length).
Proof.
  apply (decode_total Sample.layout32 4294967295).
  - exact HeaderCodecFacts.sample_layout_well_formed.
  - reflexivity.
Defined.

(** C4. The example of the specification: with the example layout, whatever
    the enumeration, a runtime whose macro packs by that layout makes
    [make_array_header(2, 3, 5)] return [2 | (3 << 8) | (5 << 11)], that is
    11010, and that value decodes to [(2, 3, 5)]. *)
Theorem example_header (e : endianness) (tags : list Z) (m : mem) :
  illusory0x0_moonbit_make_array_header
      (Sample.runtime_of e (example_layout tags)) 2 3 5 m
    = Some (Z.lor 2 (Z.lor (Z.shiftl 3 8) (Z.shiftl 5 11)), m) /\
  Z.lor 2 (Z.lor (Z.shiftl 3 8) (Z.shiftl 5 11)) = 11010 /\
  decode (example_layout tags) (Z.lor 2 (Z.lor (Z.shiftl 3 8) (Z.shiftl 5 11)))
    = (2, 3, 5) /\
  ArrayHeaderFactory.make_array_header (example_layout (2 :: tags)) 2 3 5
    = Ok (Z.lor 2 (Z.lor (Z.shiftl 3 8) (Z.shiftl 5 11))).
Proof. repeat split. Qed.

End CodecClaims.

(** ** More on bytes and words: success, framing, commuting stores *)

Module MemoryMore.
Import Memory.

(** A store succeeds exactly when the bytes it writes are allocated. *)
Lemma store_bytes_is_Some (bs : list Z) (a : Z) (m : mem) :
  is_Some (store_bytes a bs m) <-> live a (length bs) m.
Proof.
  split.
  - intros [m' H]. eapply MemoryFacts.store_bytes_Some_live; eauto.
  - apply MemoryFacts.store_bytes_live.
Qed.

(** A store allocates and frees nothing. *)
Lemma store_bytes_allocated (bs : list Z) (a : Z) (m m' : mem) :
  store_bytes a bs m = Some m' ->
  forall x, is_Some (m' !! x) <-> is_Some (m !! x).
Proof.
  intros Hst x.
  pose proof (MemoryFacts.store_bytes_Some_live _ _ _ _ Hst) as Hlive.
  rewrite (MemoryFacts.store_bytes_lookup _ _ _ _ x Hst).
  case_decide as Hx; [|reflexivity].
  split; intros _.
  - specialize (Hlive (x - a)). replace (a + (x - a)) with x in Hlive by lia.
    apply Hlive. lia.
  - apply lookup_lt_is_Some_2. lia.
Qed.

Lemma store_bytes_live_after (bs : list Z) (a : Z) (m m' : mem) :
  store_bytes a bs m = Some m' ->
  forall b n, live b n m' <-> live b n m.
Proof.
  intros Hst b n. unfold live.
  split; intros H i Hi; apply (store_bytes_allocated _ _ _ _ Hst); auto.
Qed.

(** A load reads the bytes of its range and nothing else. *)
Lemma load_bytes_ext (n : nat) (a : Z) (m1 m2 : mem) :
  (forall i, 0 <= i < Z.of_nat n -> m1 !! (a + i) = m2 !! (a + i)) ->
  load_bytes a n m1 = load_bytes a n m2.
Proof.
  revert a; induction n as [|n IH]; intros a H; simpl; [reflexivity|].
  pose proof (H 0 ltac:(lia)) as H0. rewrite Z.add_0_r in H0. rewrite H0.
  rewrite (IH (a + 1)); [reflexivity|].
  intros i Hi. replace (a + 1 + i) with (a + (1 + i)) by lia. apply H. lia.
Qed.

Lemma load_bytes_Some (n : nat) (a : Z) (m : mem) (bs : list Z) :
  load_bytes a n m = Some bs ->
  length bs = n /\
  forall (i : nat) (b : Z), bs !! i = Some b -> m !! (a + Z.of_nat i) = Some b.
Proof.
  revert a bs; induction n as [|n IH]; intros a bs H; simpl in H.
  - injection H as <-. split; [reflexivity|]. intros i b Hi. discriminate.
  - destruct (m !! a) as [b0|] eqn:Ha; [|discriminate].
    destruct (load_bytes (a + 1) n m) as [bs'|] eqn:Hl; [|discriminate].
    injection H as <-. destruct (IH _ _ Hl) as [Hlen Hin].
    split; [simpl; congruence|].
    intros [|i] b Hi; simpl in Hi.
    + injection Hi as <-. now rewrite Z.add_0_r.
    + replace (a + Z.of_nat (S i)) with (a + 1 + Z.of_nat i) by lia. auto.
Qed.

Lemma load_bytes_holds (n : nat) (a : Z) (m : mem) :
  holds_bytes a n m ->
  exists bs, load_bytes a n m = Some bs /\ Forall is_byte bs.
Proof.
  revert a; induction n as [|n IH]; intros a H; simpl.
  - exists []. split; [reflexivity | constructor].
  - destruct (H 0 ltac:(lia)) as (b & Hb & Hbyte). rewrite Z.add_0_r in Hb.
    destruct (IH (a + 1)) as (bs & Hbs & Hall).
    { intros i Hi. replace (a + 1 + i) with (a + (1 + i)) by lia.
      apply H. lia. }
    exists (b :: bs). rewrite Hb, Hbs. split; [reflexivity|].
    now constructor.
Qed.

(** Storing the bytes that are already there changes nothing. *)
Lemma store_bytes_same (bs : list Z) (a : Z) (m : mem) :
  (forall (i : nat) (b : Z), bs !! i = Some b -> m !! (a + Z.of_nat i) = Some b) ->
  store_bytes a bs m = Some m.
Proof.
  revert a; induction bs as [|b bs IH]; intros a H; simpl; [reflexivity|].
  pose proof (H 0%nat b eq_refl) as H0. rewrite Z.add_0_r in H0.
  unfold store_byte. rewrite H0, (insert_id m a b H0).
  apply IH. intros i c Hi.
  replace (a + 1 + Z.of_nat i) with (a + Z.of_nat (S i)) by lia. now apply H.
Qed.

Lemma is_byte_testbit_high (b i : Z) : is_byte b -> 8 <= i -> Z.testbit b i = false.
Proof.
  intros Hb Hi. unfold is_byte in Hb.
  rewrite <- (Z.mod_small b (2 ^ 8)) by lia.
  apply Z.mod_pow2_bits_high. lia.
Qed.

(** Splitting the value of a list of bytes gives the list back. *)
Lemma le_bytes_le_value (bs : list Z) :
  Forall is_byte bs -> le_bytes (length bs) (le_value bs) = bs.
Proof.
  induction 1 as [|b bs Hb Hbs IH]; [reflexivity|].
  cbn [length le_value le_bytes]. f_equal.
  - apply Z.bits_inj'; intros i Hi. change 255 with (Z.ones 8).
    rewrite Z.land_spec, Z.lor_spec, Z.testbit_ones_nonneg by lia.
    destruct (Z.ltb_spec i 8).
    + rewrite Z.shiftl_spec_low by lia.
      now rewrite orb_false_r, andb_true_r.
    + rewrite andb_false_r. symmetry. now apply is_byte_testbit_high.
  - assert (Z.shiftr (Z.lor b (Z.shiftl (le_value bs) 8)) 8 = le_value bs) as ->;
      [|exact IH].
    apply Z.bits_inj'; intros i Hi.
    rewrite Z.shiftr_spec, Z.lor_spec, Z.shiftl_spec by lia.
    rewrite (is_byte_testbit_high b (i + 8) Hb) by lia.
    replace (i + 8 - 8) with i by lia. reflexivity.
Qed.

Lemma bytes_of_uint32_of_bytes (e : endianness) (bs : list Z) :
  length bs = 4%nat -> Forall is_byte bs ->
  bytes_of_uint32 e (uint32_of_bytes e bs) = bs.
Proof.
  intros Hlen Hall. destruct e; unfold bytes_of_uint32, uint32_of_bytes.
  - rewrite <- Hlen. now apply le_bytes_le_value.
  - assert (length (rev bs) = 4%nat) as Hrev by now rewrite length_rev.
    rewrite <- Hrev, le_bytes_le_value.
    + apply rev_involutive.
    + now apply Forall_rev.
Qed.

Lemma uint32_of_bytes_range (e : endianness) (bs : list Z) :
  length bs = 4%nat -> Forall is_byte bs ->
  0 <= uint32_of_bytes e bs < 2 ^ 32.
Proof.
  intros Hlen Hall.
  assert (uint32_of_bytes e bs = uint32_of_bytes e bs mod 2 ^ 32) as ->.
  { rewrite <- (bytes_of_uint32_of_bytes e bs Hlen Hall) at 1.
    destruct e; unfold uint32_of_bytes at 1, bytes_of_uint32;
      rewrite ?rev_involutive, MemoryFacts.le_value_le_bytes;
      change (8 * Z.of_nat 4) with 32; apply Z.land_ones; lia. }
  apply Z.mod_pos_bound. lia.
Qed.

(** Two stores to ranges that do not overlap commute, failures included. *)
Lemma store_bytes_comm (bs1 bs2 : list Z) (a1 a2 : Z) (m : mem) :
  a1 + Z.of_nat (length bs1) <= a2 \/ a2 + Z.of_nat (length bs2) <= a1 ->
  match store_bytes a1 bs1 m with
  | Some m1 => store_bytes a2 bs2 m1
  | None => None
  end =
  match store_bytes a2 bs2 m with
  | Some m2 => store_bytes a1 bs1 m2
  | None => None
  end.
Proof.
  intros Hdis.
  destruct (store_bytes a1 bs1 m) as [m1|] eqn:H1;
    destruct (store_bytes a2 bs2 m) as [m2|] eqn:H2.
  - assert (is_Some (store_bytes a2 bs2 m1)) as [r12 H12].
    { apply store_bytes_is_Some, (store_bytes_live_after _ _ _ _ H1).
      apply store_bytes_is_Some. eauto. }
    assert (is_Some (store_bytes a1 bs1 m2)) as [r21 H21].
    { apply store_bytes_is_Some, (store_bytes_live_after _ _ _ _ H2).
      apply store_bytes_is_Some. eauto. }
    rewrite H12, H21. f_equal. apply map_eq; intros x.
    rewrite (MemoryFacts.store_bytes_lookup _ _ _ _ x H12),
            (MemoryFacts.store_bytes_lookup _ _ _ _ x H21),
            (MemoryFacts.store_bytes_lookup _ _ _ _ x H1),
            (MemoryFacts.store_bytes_lookup _ _ _ _ x H2).
    repeat case_decide; try reflexivity; lia.
  - destruct (store_bytes a2 bs2 m1) as [r|] eqn:H12; [|reflexivity].
    assert (is_Some (store_bytes a2 bs2 m)) as [r' Hr'].
    { apply store_bytes_is_Some, (store_bytes_live_after _ _ _ _ H1).
      apply store_bytes_is_Some. eauto. }
    congruence.
  - destruct (store_bytes a1 bs1 m2) as [r|] eqn:H21; [|reflexivity].
    assert (is_Some (store_bytes a1 bs1 m)) as [r' Hr'].
    { apply store_bytes_is_Some, (store_bytes_live_after _ _ _ _ H2).
      apply store_bytes_is_Some. eauto. }
    congruence.
  - reflexivity.
Qed.

End MemoryMore.

(** ** More on the stub: when it is defined, what it leaves alone, how
    calls compose *)

Module StubMore.
Import CInt Memory Run Stub HeaderCodec.

(** Liveness of four bytes of a concrete memory that hold byte values. *)
Ltac holds_by_cases :=
  let i := fresh "i" in
  let Hi := fresh "Hi" in
  let Hc := fresh "Hc" in
  intros i Hi;
  assert (i = 0 \/ i = 1 \/ i = 2 \/ i = 3) as Hc by (simpl in Hi; lia);
  destruct Hc as [-> | [-> | [-> | ->]]];
  eexists; (split; [vm_compute; reflexivity | unfold is_byte; lia]).

(** X1. [set_array_header] has a defined result exactly when the four
    bytes of the header word are allocated: the stub checks nothing, so a
    reference to an object that is not live, or only partly so, is not
    caught but leaves the call without defined behaviour. *)
Theorem set_array_header_defined_iff_live
    (rt : runtime) (array meta : Z) (m : mem) :
  is_Some (illusory0x0_moonbit_set_array_header rt array meta m)
  <-> live (meta_address rt array) 4 m.
Proof.
  rewrite StubFacts.set_array_header_run. unfold store_uint32.
  rewrite <- (MemoryFacts.length_bytes_of_uint32 (endian rt) meta).
  rewrite <- MemoryMore.store_bytes_is_Some.
  destruct (store_bytes _ _ m); split; intros [x Hx]; try discriminate; eauto.
Qed.

(** X2. [set_array_header] leaves every other 32-bit word of the memory
    as it was: a word that does not overlap the header word written reads
    the same before and after, so the header word of any other array (and
    the other word of the same object header) is kept. *)
Theorem set_array_header_keeps_other_words
    (rt : runtime) (array meta : Z) (m m' : mem) :
  illusory0x0_moonbit_set_array_header rt array meta m = Some (tt, m') ->
  (forall a, a + 4 <= meta_address rt array \/ meta_address rt array + 4 <= a ->
     load_uint32 (endian rt) a m' = load_uint32 (endian rt) a m) /\
  (forall other,
     meta_address rt other + 4 <= meta_address rt array \/
     meta_address rt array + 4 <= meta_address rt other ->
     read_array_header rt other m' = read_array_header rt other m).
Proof.
  intros Hrun. rewrite StubFacts.set_array_header_run in Hrun.
  destruct (store_uint32 _ _ meta m) as [r|] eqn:Hst; [|discriminate].
  injection Hrun as ->.
  assert (forall a, a + 4 <= meta_address rt array \/ meta_address rt array + 4 <= a ->
            load_uint32 (endian rt) a m' = load_uint32 (endian rt) a m) as Hw.
  { intros a Ha. unfold load_uint32.
    rewrite (MemoryMore.load_bytes_ext 4 a m' m); [reflexivity|].
    intros i Hi. eapply MemoryFacts.store_uint32_outside; eauto.
    change (Z.of_nat 4) with 4 in Hi. lia. }
  split; [exact Hw|]. intros other Ho. apply Hw. exact Ho.
Qed.

Lemma set_array_header_keeps_other_words_witness :
  (forall a, a + 4 <= 100 \/ 100 + 4 <= a ->
     load_uint32 LittleEndian a
       (<[103 := 0]> (<[102 := 0]> (<[101 := 43]> (<[100 := 2]> Sample.zeroed))))
     = load_uint32 LittleEndian a Sample.zeroed) /\
  (forall other,
     (other - 8 + 4) + 4 <= 100 \/ 100 + 4 <= other - 8 + 4 ->
     read_array_header (Sample.runtime_of LittleEndian Sample.layout32) other
       (<[103 := 0]> (<[102 := 0]> (<[101 := 43]> (<[100 := 2]> Sample.zeroed))))
     = read_array_header (Sample.runtime_of LittleEndian Sample.layout32) other
         Sample.zeroed).
Proof.
  apply (set_array_header_keeps_other_words
           (Sample.runtime_of LittleEndian Sample.layout32) 104 11010
           Sample.zeroed
           (<[103 := 0]> (<[102 := 0]> (<[101 := 43]> (<[100 := 2]> Sample.zeroed))))).
  vm_compute. reflexivity.
Defined.

(** X3. Calls of [set_array_header] on two arrays whose header words do
    not overlap commute: either order ends in the same memory, and when
    one header word is not allocated both orders are undefined. *)
Theorem set_array_header_commutes
    (rt : runtime) (array1 array2 meta1 meta2 : Z) (m : mem) :
  meta_address rt array1 + 4 <= meta_address rt array2 \/
  meta_address rt array2 + 4 <= meta_address rt array1 ->
  (let* _ := illusory0x0_moonbit_set_array_header rt array1 meta1 in
   illusory0x0_moonbit_set_array_header rt array2 meta2) m
  = (let* _ := illusory0x0_moonbit_set_array_header rt array2 meta2 in
     illusory0x0_moonbit_set_array_header rt array1 meta1) m.
Proof.
  intros Hdis.
  pose proof (MemoryMore.store_bytes_comm
                (bytes_of_uint32 (endian rt) meta1)
                (bytes_of_uint32 (endian rt) meta2)
                (meta_address rt array1) (meta_address rt array2) m) as Hc.
  rewrite !MemoryFacts.length_bytes_of_uint32 in Hc.
  specialize (Hc Hdis).
  unfold bind. rewrite !StubFacts.set_array_header_run. unfold store_uint32.
  destruct (store_bytes (meta_address rt array1) _ m) as [m1|];
    destruct (store_bytes (meta_address rt array2) _ m) as [m2|];
    rewrite ?StubFacts.set_array_header_run; unfold store_uint32.
  - now rewrite Hc.
  - now rewrite Hc.
  - now rewrite <- Hc.
  - reflexivity.
Qed.

Lemma set_array_header_commutes_witness :
  (let* _ := illusory0x0_moonbit_set_array_header
               (Sample.runtime_of BigEndian Sample.layout32) 104 11010 in
   illusory0x0_moonbit_set_array_header
     (Sample.runtime_of BigEndian Sample.layout32) 112 770) Sample.zeroed
  = (let* _ := illusory0x0_moonbit_set_array_header
                 (Sample.runtime_of BigEndian Sample.layout32) 112 770 in
     illusory0x0_moonbit_set_array_header
       (Sample.runtime_of BigEndian Sample.layout32) 104 11010) Sample.zeroed.
Proof.
  apply (set_array_header_commutes
           (Sample.runtime_of BigEndian Sample.layout32) 104 112 11010 770
           Sample.zeroed).
  left. vm_compute. discriminate.
Defined.

(** X4. Writing back the header word that is there changes nothing: on a
    header word of four allocated bytes, the word read is a [uint32_t]
    and [set_array_header] with that word returns the memory unchanged. *)
Theorem set_array_header_of_read_is_noop (rt : runtime) (array : Z) (m : mem) :
  holds_bytes (meta_address rt array) 4 m ->
  exists v,
    read_array_header rt array m = Some v /\
    is_uint32 v /\
    illusory0x0_moonbit_set_array_header rt array v m = Some (tt, m).
Proof.
  intros Hb.
  destruct (MemoryMore.load_bytes_holds _ _ _ Hb) as (bs & Hload & Hall).
  destruct (MemoryMore.load_bytes_Some _ _ _ _ Hload) as [Hlen Hin].
  exists (uint32_of_bytes (endian rt) bs).
  split; [|split].
  - unfold read_array_header, load_uint32. now rewrite Hload.
  - now apply MemoryMore.uint32_of_bytes_range.
  - rewrite StubFacts.set_array_header_run. unfold store_uint32.
    rewrite MemoryMore.bytes_of_uint32_of_bytes by assumption.
    now rewrite (MemoryMore.store_bytes_same bs _ m Hin).
Qed.

Lemma set_array_header_of_read_is_noop_witness :
  exists v,
    read_array_header (Sample.runtime_of BigEndian Sample.layout32) 104
      (<[101 := 43]> (<[100 := 2]> Sample.zeroed)) = Some v /\
    is_uint32 v /\
    illusory0x0_moonbit_set_array_header
      (Sample.runtime_of BigEndian Sample.layout32) 104 v
      (<[101 := 43]> (<[100 := 2]> Sample.zeroed))
    = Some (tt, <[101 := 43]> (<[100 := 2]> Sample.zeroed)).
Proof.
  apply (set_array_header_of_read_is_noop
           (Sample.runtime_of BigEndian Sample.layout32) 104
           (<[101 := 43]> (<[100 := 2]> Sample.zeroed))).
  holds_by_cases.
Defined.

(** X5. [set_array_header] keeps no bit of the old header word: on two
    memories that agree outside the header word, and in both of which it
    is allocated, the call ends in one and the same memory. *)
Theorem set_array_header_forgets_old_word
    (rt : runtime) (array meta : Z) (m1 m2 : mem) :
  live (meta_address rt array) 4 m1 ->
  live (meta_address rt array) 4 m2 ->
  (forall a, a < meta_address rt array \/ meta_address rt array + 4 <= a ->
     m1 !! a = m2 !! a) ->
  illusory0x0_moonbit_set_array_header rt array meta m1
  = illusory0x0_moonbit_set_array_header rt array meta m2 /\
  is_Some (illusory0x0_moonbit_set_array_header rt array meta m1).
Proof.
  intros H1 H2 Hout. rewrite !StubFacts.set_array_header_run.
  destruct (MemoryFacts.store_uint32_live (endian rt) _ meta m1 H1) as [r1 Hr1].
  destruct (MemoryFacts.store_uint32_live (endian rt) _ meta m2 H2) as [r2 Hr2].
  rewrite Hr1, Hr2. split; [|eauto].
  do 2 f_equal. apply map_eq; intros x.
  unfold store_uint32 in Hr1, Hr2.
  rewrite (MemoryFacts.store_bytes_lookup _ _ _ _ x Hr1),
          (MemoryFacts.store_bytes_lookup _ _ _ _ x Hr2).
  rewrite MemoryFacts.length_bytes_of_uint32.
  case_decide as Hx; [reflexivity|].
  apply Hout. change (Z.of_nat 4) with 4 in Hx. lia.
Qed.

Lemma set_array_header_forgets_old_word_witness :
  illusory0x0_moonbit_set_array_header
    (Sample.runtime_of LittleEndian Sample.layout32) 104 770
    (<[101 := 43]> (<[100 := 2]> Sample.zeroed))
  = illusory0x0_moonbit_set_array_header
      (Sample.runtime_of LittleEndian Sample.layout32) 104 770 Sample.zeroed /\
  is_Some (illusory0x0_moonbit_set_array_header
             (Sample.runtime_of LittleEndian Sample.layout32) 104 770
             (<[101 := 43]> (<[100 := 2]> Sample.zeroed))).
Proof.
  apply (set_array_header_forgets_old_word
           (Sample.runtime_of LittleEndian Sample.layout32) 104 770
           (<[101 := 43]> (<[100 := 2]> Sample.zeroed)) Sample.zeroed).
  - StubFacts.live_by_cases.
  - StubFacts.live_by_cases.
  - intros a Ha. change (a < 100 \/ 100 + 4 <= a) in Ha.
    rewrite !lookup_insert_ne by lia. reflexivity.
Defined.

(** X6. The value [make_array_header] hands back for a header word: when
    the macro yields a [uint32_t], the stub returns it unchanged if it is
    below [2^31] and returns it minus [2^32], a negative number, if its
    top bit is set. *)
Theorem make_array_header_of_uint32
    (rt : runtime) (kind elem_size_shift length : Z) (m : mem) :
  is_uint32 (Moonbit_make_array_header rt kind elem_size_shift length) ->
  illusory0x0_moonbit_make_array_header rt kind elem_size_shift length m
  = Some (if Moonbit_make_array_header rt kind elem_size_shift length <? 2 ^ 31
          then Moonbit_make_array_header rt kind elem_size_shift length
          else Moonbit_make_array_header rt kind elem_size_shift length - 2 ^ 32,
          m).
Proof.
  intros Hu. rewrite StubFacts.make_array_header_run.
  set (u := Moonbit_make_array_header rt kind elem_size_shift length) in *.
  unfold is_uint32 in Hu. unfold int32_of. do 2 f_equal.
  destruct (Z.ltb_spec u (2 ^ 31)).
  - rewrite Z.mod_small by lia. lia.
  - replace (u + 2 ^ 31) with (u - 2 ^ 31 + 1 * 2 ^ 32) by lia.
    rewrite Z.mod_add by lia. rewrite Z.mod_small by lia. lia.
Qed.

Lemma make_array_header_of_uint32_witness :
  illusory0x0_moonbit_make_array_header
    (Sample.runtime_of LittleEndian Sample.layout32) 2 3 2097151 ∅
  = Some (if pack Sample.layout32 2 3 2097151 <? 2 ^ 31
          then pack Sample.layout32 2 3 2097151
          else pack Sample.layout32 2 3 2097151 - 2 ^ 32,
          ∅).
Proof.
  apply (make_array_header_of_uint32
           (Sample.runtime_of LittleEndian Sample.layout32) 2 3 2097151 ∅).
  unfold is_uint32. vm_compute. split; congruence.
Defined.

End StubMore.
